(** * reda: quadrupole construction, correction factors and sign normalisation

    A shallow embedding of [reda/importers/eit_fzj.py] ([compute_quadrupoles],
    [apply_correction_factors]) and [reda/utils/fix_sign_with_K.py]
    ([fix_sign_with_K]).

    Modelling conventions.
    - A pandas [DataFrame] is a finite map from column names to columns
      (lists of cells) together with its row labels.
    - A cell is an [int64] (a [Z], arithmetic wraps around), a finite
      [float64] (idealised as a real number: rounding is not modelled), a
      [complex128] (a pair of reals) or the float NaN that pandas uses for
      missing cells.
    - Python exceptions are values of [exn]; code runs in a state-and-error
      monad.  Mutations made before an exception is raised persist, as in
      Python.
    - DataFrames that a caller can hold a reference to live in a heap and
      are addressed by location. *)

From Stdlib Require Import Reals Lra Lia ZArith.
From stdpp Require Import gmap strings list.

Open Scope string_scope.
Open Scope R_scope.

(** ** Cells *)

Inductive value :=
  | VInt (z : Z)
  | VFloat (x : R)
  | VComplex (re im : R)
  | VNaN.

(** [int64] wrap-around. *)
Definition wrap64 (z : Z) : Z :=
  ((z + 2 ^ 63) mod 2 ^ 64 - 2 ^ 63)%Z.

#[global] Instance Rlt_decision (x y : R) : Decision (x < y) := Rlt_dec x y.
#[global] Instance Req_decision : EqDecision R := Req_dec_T.

(** Real and imaginary parts of a numeric cell ([.real], [.imag]). *)
Definition re_of (v : value) : R :=
  match v with
  | VInt z => IZR z
  | VFloat x => x
  | VComplex re _ => re
  | VNaN => 0
  end.

Definition im_of (v : value) : R :=
  match v with
  | VComplex _ im => im
  | _ => 0
  end.

(** Binary arithmetic with numpy's type promotion: int op int stays int,
    anything with a complex operand is complex, the rest is float. *)
Definition arith (fz : Z → Z → Z) (fr : R → R → R)
    (fc : R * R → R * R → R * R) (v w : value) : value :=
  match v, w with
  | VInt a, VInt b => VInt (wrap64 (fz a b))
  | VNaN, _ | _, VNaN => VNaN
  | VComplex _ _, _ | _, VComplex _ _ =>
      let c := fc (re_of v, im_of v) (re_of w, im_of w) in
      VComplex c.1 c.2
  | _, _ => VFloat (fr (re_of v) (re_of w))
  end.

Definition Cmul (c d : R * R) : R * R :=
  (c.1 * d.1 - c.2 * d.2, c.1 * d.2 + c.2 * d.1).
Definition Csub (c d : R * R) : R * R := (c.1 - d.1, c.2 - d.2).
Definition Cdiv (c d : R * R) : R * R :=
  let n := d.1 * d.1 + d.2 * d.2 in
  ((c.1 * d.1 + c.2 * d.2) / n, (c.2 * d.1 - c.1 * d.2) / n).

Definition v_mul : value → value → value := arith Z.mul Rmult Cmul.
Definition v_sub : value → value → value := arith Z.sub Rminus Csub.
(** True division: two ints give a float. *)
Definition v_div (v w : value) : value :=
  match v, w with
  | VInt a, VInt b => VFloat (IZR a / IZR b)
  | _, _ => arith Z.div Rdiv Cdiv v w
  end.

(** Ordering comparisons: undefined on complex cells (numpy raises
    [TypeError]), false as soon as one side is NaN. *)
Definition v_lt (v w : value) : option bool :=
  match v, w with
  | VComplex _ _, _ | _, VComplex _ _ => None
  | VNaN, _ | _, VNaN => Some false
  | VInt a, VInt b => Some (bool_decide (a < b)%Z)
  | _, _ => Some (bool_decide (re_of v < re_of w))
  end.

(** ** Exceptions and the monad *)

Inductive exn :=
  | Exception (msg : string)
  | KeyError (key : string)
  | TypeError
  | ValueError
  | IndexError
  | UnboundLocalError (var : string).

Inductive outcome (A : Type) :=
  | Ret (a : A)
  | Raise (e : exn).
Arguments Ret {A} a.
Arguments Raise {A} e.

(** State-and-error monad over a state [S]. *)
Definition ST (S A : Type) : Type := S → outcome A * S.

#[global] Instance ST_ret {S} : MRet (ST S) := λ A a s, (Ret a, s).
#[global] Instance ST_bind {S} : MBind (ST S) := λ A B k m s,
  match m s with
  | (Ret a, s') => k a s'
  | (Raise e, s') => (Raise e, s')
  end.

Definition raise {S A} (e : exn) : ST S A := λ s, (Raise e, s).
Definition get {S} : ST S S := λ s, (Ret s, s).
Definition put {S} (s : S) : ST S unit := λ _, (Ret tt, s).

(** Lift a pure fallible computation. *)
Definition lift {S A} (o : outcome A) : ST S A := λ s, (o, s).

Definition of_option {A} (e : exn) (o : option A) : outcome A :=
  match o with Some a => Ret a | None => Raise e end.

(** [for x in xs: body x]. *)
Fixpoint for_ {S A} (xs : list A) (body : A → ST S unit) : ST S unit :=
  match xs with
  | [] => mret tt
  | x :: xs' => body x ≫= λ _, for_ xs' body
  end.

(** ** DataFrames *)

Record DataFrame := mkDF {
  index : list Z;                      (* row labels *)
  data : gmap string (list value)      (* columns *)
}.

(** [pd.DataFrame()] *)
Definition empty_frame : DataFrame := mkDF [] ∅.

Definition nrows (df : DataFrame) : nat := length (index df).

(** Every column has one cell per row. *)
Definition frame_wf (df : DataFrame) : Prop :=
  ∀ c col, data df !! c = Some col → length col = nrows df.

(** Code that works on one DataFrame object. *)
Abbreviation D := (ST DataFrame).

(** ['c' in dataframe] *)
Definition contains (c : string) : D bool :=
  λ df, (Ret (bool_decide (is_Some (data df !! c))), df).

(** [dataframe['c']] *)
Definition getitem (c : string) : D (list value) :=
  λ df, (of_option (KeyError c) (data df !! c), df).

(** [dataframe['c'] = col] *)
Definition setitem (c : string) (col : list value) : D unit :=
  λ df, if decide (length col = nrows df)
        then (Ret tt, mkDF (index df) (<[c := col]> (data df)))
        else (Raise ValueError, df).

(** *** Boolean masks *)

(** The cells of [xs] at the rows where [mask] holds. *)
Fixpoint mask_take {A} (mask : list bool) (xs : list A) : list A :=
  match mask, xs with
  | b :: mask', x :: xs' =>
      if b then x :: mask_take mask' xs' else mask_take mask' xs'
  | _, _ => []
  end.

(** Write [new], in order, into the rows of [old] where [mask] holds. *)
Fixpoint mask_put {A} (mask : list bool) (new old : list A) : list A :=
  match mask, old with
  | b :: mask', x :: old' =>
      if b then
        match new with
        | v :: new' => v :: mask_put mask' new' old'
        | [] => x :: mask_put mask' [] old'
        end
      else x :: mask_put mask' new old'
  | _, _ => old
  end.

(** [m1 & m2] *)
Definition mask_and (m1 m2 : list bool) : list bool := zip_with andb m1 m2.

(** [xs < w] for a scalar [w], and [xs < ys] row by row. *)
Definition series_lt_scalar (xs : list value) (w : value) : outcome (list bool) :=
  of_option TypeError (mapM (λ v, v_lt v w) xs).

Definition series_lt (xs ys : list value) : outcome (list bool) :=
  of_option TypeError (mapM (λ p, v_lt p.1 p.2) (zip xs ys)).

(** [xs * ys] row by row. *)
Definition series_mul (xs ys : list value) : list value := zip_with v_mul xs ys.

(** [dataframe.ix[mask, cols]]: one filtered column per name. *)
Fixpoint ix_get (mask : list bool) (cols : list string) : D (list (list value)) :=
  match cols with
  | [] => mret []
  | c :: cols' =>
      col ← getitem c;
      rest ← ix_get mask cols';
      mret (mask_take mask col :: rest)
  end.

(** [dataframe.ix[mask, cols] = vals]: a column that does not exist yet is
    created filled with NaN first. *)
Fixpoint ix_set (mask : list bool) (cols : list string)
    (vals : list (list value)) : D unit :=
  match cols, vals with
  | c :: cols', v :: vals' =>
      df ← get;
      let old := default (replicate (nrows df) VNaN) (data df !! c) in
      put (mkDF (index df) (<[c := mask_put mask v old]> (data df)));;
      ix_set mask cols' vals'
  | _, _ => mret tt
  end.

(** [dataframe.ix[mask, cols] *= k] *)
Definition ix_imul (mask : list bool) (cols : list string) (k : value) : D unit :=
  vals ← ix_get mask cols;
  ix_set mask cols (map (map (λ v, v_mul v k)) vals).

(** *** numpy element-wise functions *)

Definition v_real (v : value) : value :=
  match v with
  | VComplex re _ => VFloat re
  | _ => v
  end.

Definition v_imag (v : value) : value :=
  match v with
  | VComplex _ im => VFloat im
  | VInt _ => VInt 0
  | _ => VFloat 0
  end.

(** The angle of the point [(x, y)], in (-PI, PI]. *)
Definition arctan2 (y x : R) : R :=
  if decide (0 < x) then atan (y / x)
  else if decide (x < 0) then
    (if decide (y < 0) then atan (y / x) - PI else atan (y / x) + PI)
  else if decide (0 < y) then PI / 2
  else if decide (y < 0) then - PI / 2
  else 0.

(** [np.arctan2] on two cells. *)
Definition v_arctan2 (y x : value) : option value :=
  match y, x with
  | VComplex _ _, _ | _, VComplex _ _ => None
  | VNaN, _ | _, VNaN => Some VNaN
  | _, _ => Some (VFloat (arctan2 (re_of y) (re_of x)))
  end.

Definition np_arctan2 (ys xs : list value) : outcome (list value) :=
  of_option TypeError (mapM (λ p, v_arctan2 p.1 p.2) (zip ys xs)).

(** ** [fix_sign_with_K] *)

(** The body of [fix_sign_with_K], acting on the object [dataframe]. *)
Definition fix_sign_body : D unit :=
  (* check for required columns *)
  has_K ← contains "K";
  has_r ← contains "r";
  if negb has_K || negb has_r then
    raise (Exception "K and r columns required!")
  else
  K ← getitem "K";
  K_neg ← lift (series_lt_scalar K (VInt 0));
  r ← getitem "r";
  r_neg ← lift (series_lt_scalar r (VInt 0));
  let indices_negative := mask_and K_neg r_neg in
  ix_imul indices_negative ["K"; "r"] (VInt (-1));;
  (* switch potential electrodes *)
  a ← getitem "a";
  b ← getitem "b";
  a_gt_b ← lift (series_lt b a);
  let indices_switched_ab := mask_and indices_negative a_gt_b in
  a ← getitem "a";
  b ← getitem "b";
  a_lt_b ← lift (series_lt a b);
  let indices_switched_mn := mask_and indices_negative a_lt_b in
  ba ← ix_get indices_switched_ab ["b"; "a"];
  ix_set indices_switched_ab ["a"; "b"] ba;;
  nm ← ix_get indices_switched_mn ["n"; "m"];
  ix_set indices_switched_mn ["m"; "n"] nm;;
  (* switch sign of voltages *)
  has_Vmn ← contains "Vmn";
  (if (has_Vmn : bool) then ix_imul indices_negative ["Vmn"] (VInt (-1)) else mret tt);;
  has_Zt ← contains "Zt";
  (if (has_Zt : bool) then ix_imul indices_negative ["Zt"] (VInt (-1)) else mret tt);;
  has_rho_a ← contains "rho_a";
  (if (has_rho_a : bool) then
     r ← getitem "r";
     K ← getitem "K";
     setitem "rho_a" (series_mul r K)
   else mret tt);;
  (* recompute phase values *)
  has_rpha ← contains "rpha";
  (if (has_rpha : bool) then
     Zt ← getitem "Zt";
     Zt' ← getitem "Zt";
     phase ← lift (np_arctan2 (v_imag <$> Zt) (v_real <$> Zt'));
     setitem "rpha" ((λ v, v_mul v (VFloat 1000)) <$> phase)
   else mret tt);;
  mret tt.


(** ** [compute_quadrupoles] *)

#[global] Instance outcome_ret : MRet outcome := λ A a, Ret a.
#[global] Instance outcome_bind : MBind outcome := λ A B k m,
  match m with
  | Ret a => k a
  | Raise e => Raise e
  end.

(** [df['c'].values] on a temporary, and [df['c'] = values] (the values
    must have one cell per row). *)
Definition column (df : DataFrame) (c : string) : outcome (list value) :=
  of_option (KeyError c) (data df !! c).

Definition assign (df : DataFrame) (c : string) (col : list value) :
    outcome DataFrame :=
  if decide (length col = nrows df)
  then Ret (mkDF (index df) (<[c := col]> (data df)))
  else Raise ValueError.

(** [v == z] for an integer literal [z]. *)
Definition v_eq_int (v : value) (z : Z) : bool :=
  match v with
  | VInt a => bool_decide (a = z)
  | VFloat x => bool_decide (x = IZR z)
  | VComplex re im => bool_decide (re = IZR z) && bool_decide (im = 0)
  | VNaN => false
  end.

(** [df.query('A==a and B==b and P==p')]: the rows matching all three
    conditions, every column kept. *)
Definition query (df : DataFrame) (A B P : Z) : outcome DataFrame :=
  cA ← of_option (KeyError "A") (data df !! "A");
  cB ← of_option (KeyError "B") (data df !! "B");
  cP ← of_option (KeyError "P") (data df !! "P");
  let mask :=
    mask_and (mask_and ((λ v, v_eq_int v A) <$> cA)
                       ((λ v, v_eq_int v B) <$> cB))
             ((λ v, v_eq_int v P) <$> cP) in
  Ret (mkDF (mask_take mask (index df)) (mask_take mask <$> data df)).

(** [df.size]: number of cells. *)
Definition frame_size (df : DataFrame) : nat := (nrows df * size (data df))%nat.

(** [df[cols]] *)
Fixpoint select (df : DataFrame) (cols : list string) :
    outcome (gmap string (list value)) :=
  match cols with
  | [] => Ret ∅
  | c :: cols' =>
      col ← column df c;
      rest ← select df cols';
      Ret (<[c := col]> rest)
  end.

(** [xs - ys] on two arrays, with numpy broadcasting of a length-one
    operand. *)
Definition np_sub (xs ys : list value) : outcome (list value) :=
  if decide (length xs = length ys) then Ret (zip_with v_sub xs ys)
  else match xs, ys with
       | _, [y] => Ret ((λ x, v_sub x y) <$> xs)
       | [x], _ => Ret ((λ y, v_sub x y) <$> ys)
       | _, _ => Raise ValueError
       end.

(** [np.sign] and [np.abs], cell by cell. *)
Definition Rsgn (x : R) : R :=
  if decide (x < 0) then -1 else if decide (0 < x) then 1 else 0.

Definition v_sign (v : value) : value :=
  match v with
  | VInt z => VInt (Z.sgn z)
  | VFloat x => VFloat (Rsgn x)
  | VComplex re im => VComplex (Rsgn re) 0
  | VNaN => VNaN
  end.

Definition v_abs (v : value) : value :=
  match v with
  | VInt z => VInt (wrap64 (Z.abs z))
  | VFloat x => VFloat (Rabs x)
  | VComplex re im => VFloat (sqrt (re * re + im * im))
  | VNaN => VNaN
  end.

(** [pd.concat]: rows appended; a column missing from one of the frames is
    filled with NaN there. *)
Definition concat2 (d1 d2 : DataFrame) : DataFrame :=
  mkDF (index d1 ++ index d2)%list
    (merge (λ c1 c2,
        match c1, c2 with
        | Some x, Some y => Some (x ++ y)%list
        | Some x, None => Some (x ++ replicate (nrows d2) VNaN)%list
        | None, Some y => Some (replicate (nrows d1) VNaN ++ y)%list
        | None, None => None
        end) (data d1) (data d2)).

Definition pd_concat (frames : list DataFrame) : DataFrame :=
  foldr concat2 empty_frame frames.

Definition keep_cols : list string :=
  ["datetime"; "frequency"; "a"; "b"; "Zg1"; "Zg2"; "Zg3"; "Is"; "Il"; "Zg";
   "Iab"].

(** One pass of the loop body: [None] is the [continue] taken when a
    selection is empty, [Some df4] the frame appended to [quadpole_list]. *)
Definition quadrupole (df_emd : DataFrame) (config : Z * Z * Z * Z) :
    outcome (option DataFrame) :=
  let '(Ar, Br, M, N) := config in
  (* the order of A and B doesn't concern us *)
  let A := Z.min Ar Br in
  let B := Z.max Ar Br in
  query_M ← query df_emd A B M;
  query_N ← query df_emd A B N;
  if (frame_size query_M =? 0)%nat || (frame_size query_N =? 0)%nat then
    Ret None
  else
    kept ← select query_M keep_cols;
    let df4 := mkDF (index query_M) kept in
    Zt_M ← column query_M "Zt";
    Zt_N ← column query_N "Zt";
    diff ← np_sub Zt_M Zt_N;
    df4 ← assign df4 "Zt" diff;
    p_M ← column query_M "p";
    df4 ← assign df4 "m" p_M;
    p_N ← column query_N "p";
    df4 ← assign df4 "n" p_N;
    Ret (Some df4).

(** The loop over the configurations, accumulating [quadpole_list]. *)
Fixpoint quadrupoles (df_emd : DataFrame) (configs : list (Z * Z * Z * Z))
    (quadpole_list : list DataFrame) : outcome (list DataFrame) :=
  match configs with
  | [] => Ret quadpole_list
  | config :: configs' =>
      step ← quadrupole df_emd config;
      match step with
      | None => quadrupoles df_emd configs' quadpole_list
      | Some df4 => quadrupoles df_emd configs' (quadpole_list ++ [df4])
      end
  end.

(** The columns derived from [Zt] on the concatenated table [dfn]. *)
Definition derive_columns : D unit :=
  Zt ← getitem "Zt";
  let Rsign := v_sign <$> (v_real <$> Zt) in
  Zt ← getitem "Zt";
  setitem "r" (series_mul Rsign (v_abs <$> Zt));;
  r ← getitem "r";
  Iab ← getitem "Iab";
  setitem "Vmn" (series_mul r Iab);;
  Zt ← getitem "Zt";
  Zt' ← getitem "Zt";
  phase ← lift (np_arctan2 (v_imag <$> Zt) (v_real <$> Zt'));
  setitem "rpha" ((λ v, v_mul v (VFloat 1000)) <$> phase).

(** Run object-level code on a temporary. *)
Definition exec (m : D unit) (df : DataFrame) : outcome DataFrame :=
  match m df with
  | (Ret _, df') => Ret df'
  | (Raise e, _) => Raise e
  end.

(** ** The heap of DataFrame objects and the console *)

Definition loc := nat.

Inductive event :=
  | Print (s : string)                 (* print('...') *)
  | PrintKey (key : Z * Z * Z * Z)     (* print(key) *)
  | IPythonEmbed.                      (* IPython.embed(): interactive shell *)

Record world := mkWorld {
  heap : gmap loc DataFrame;
  console : list event                 (* oldest event first *)
}.

Abbreviation M := (ST world).

(** Run object-level code on the DataFrame stored at [l]. *)
Definition on {A} (l : loc) (d : D A) : M A :=
  λ w, match heap w !! l with
       | Some df => let '(o, df') := d df in
                    (o, mkWorld (<[l := df']> (heap w)) (console w))
       | None => (Raise (KeyError "dangling reference"), w)
       end.

(** Store a new object. *)
Definition alloc (df : DataFrame) : M loc :=
  λ w, let l := fresh (dom (heap w)) in
       (Ret l, mkWorld (<[l := df]> (heap w)) (console w)).

Definition emit (e : event) : M unit :=
  λ w, (Ret tt, mkWorld (heap w) (console w ++ [e])).

(** [fix_sign_with_K(dataframe)]: mutates the argument in place and returns
    the same object. *)
Definition fix_sign_with_K (dataframe : loc) : M loc :=
  on dataframe fix_sign_body;;
  mret dataframe.

(** [compute_quadrupoles(df_emd, configs)] for an in-memory configuration
    array [configs] (one [(A, B, M, N)] row per quadrupole).  The tripole
    table is only read; the result is a new DataFrame. *)
Definition read (l : loc) : M DataFrame := on l get.

Definition compute_quadrupoles (df_emd : loc) (configs : list (Z * Z * Z * Z)) :
    M loc :=
  (* construct four-point measurements via superposition *)
  emit (Print "constructing four-point measurements");;
  emd ← read df_emd;
  quadpole_list ← lift (quadrupoles emd configs []);
  dfn ← (match quadpole_list with
         | _ :: _ => lift (exec derive_columns (pd_concat quadpole_list))
         | [] => mret empty_frame
         end);
  alloc dfn.

(** ** What [fix_sign_with_K] leaves in the table *)

(** [v * -1] *)
Definition neg1 (v : value) : value := v_mul v (VInt (-1)).

(** The columns after the sign flip and the two relabelling assignments,
    for the masks [flip] (rows to negate), [ab] (rows whose a and b are
    exchanged) and [mn] (rows whose m and n are exchanged). *)
Definition relabelled (d : gmap string (list value))
    (flip ab mn : list bool) (K r a b m n : list value) :
    gmap string (list value) :=
  <["n" := mask_put mn (mask_take mn m) n]>
  (<["m" := mask_put mn (mask_take mn n) m]>
  (<["b" := mask_put ab (mask_take ab a) b]>
  (<["a" := mask_put ab (mask_take ab b) a]>
  (<["r" := mask_put flip (neg1 <$> mask_take flip r) r]>
  (<["K" := mask_put flip (neg1 <$> mask_take flip K) K]> d))))).

(** [dataframe.ix[flip, c] *= -1] when the column [c] is present. *)
Definition negated_if_present (c : string) (flip : list bool)
    (d : gmap string (list value)) : gmap string (list value) :=
  match d !! c with
  | Some col => <[c := mask_put flip (neg1 <$> mask_take flip col) col]> d
  | None => d
  end.

(** [rho_a] recomputed from the columns [r] and [K] when present. *)
Definition rho_a_if_present (d : gmap string (list value)) :
    gmap string (list value) :=
  match d !! "rho_a", d !! "r", d !! "K" with
  | Some _, Some r, Some K => <["rho_a" := series_mul r K]> d
  | _, _, _ => d
  end.

(** The phase column computed from a [Zt] column. *)
Definition phase_of (Zt : list value) : option (list value) :=
  (λ ph, (λ v, v_mul v (VFloat 1000)) <$> ph) <$>
    mapM (λ p, v_arctan2 p.1 p.2) (zip (v_imag <$> Zt) (v_real <$> Zt)).

(** The columns before the phase is recomputed. *)
Definition before_phase (d : gmap string (list value))
    (flip ab mn : list bool) (K r a b m n : list value) :
    gmap string (list value) :=
  rho_a_if_present
    (negated_if_present "Zt" flip
      (negated_if_present "Vmn" flip (relabelled d flip ab mn K r a b m n))).

(** The last step: outcome and final columns. *)
Definition recompute_phase (idx : list Z) (d : gmap string (list value)) :
    outcome unit * DataFrame :=
  match d !! "rpha" with
  | None => (Ret tt, mkDF idx d)
  | Some _ =>
      match d !! "Zt" with
      | None => (Raise (KeyError "Zt"), mkDF idx d)
      | Some Zt =>
          match phase_of Zt with
          | Some ph => (Ret tt, mkDF idx (<["rpha" := ph]> d))
          | None => (Raise TypeError, mkDF idx d)
          end
      end
  end.

(** ** Quadrupole tables, row by row *)

(** One row of the columns [fix_sign_with_K] relabels: integer electrode
    labels, float geometric factor and resistance. *)
Record qrow := QRow {
  q_a : Z; q_b : Z; q_m : Z; q_n : Z;
  q_K : R; q_r : R
}.

Definition int_col {A} (f : A → Z) (rows : list A) : list value :=
  (λ q, VInt (f q)) <$> rows.
Definition float_col {A} (f : A → R) (rows : list A) : list value :=
  (λ q, VFloat (f q)) <$> rows.
Definition complex_col {A} (f : A → R * R) (rows : list A) : list value :=
  (λ q, VComplex (f q).1 (f q).2) <$> rows.

(** The columns a, b, m, n, K and r of [d] hold [rows]. *)
Definition has_rows (d : gmap string (list value)) (rows : list qrow) : Prop :=
  d !! "a" = Some (int_col q_a rows) ∧
  d !! "b" = Some (int_col q_b rows) ∧
  d !! "m" = Some (int_col q_m rows) ∧
  d !! "n" = Some (int_col q_n rows) ∧
  d !! "K" = Some (float_col q_K rows) ∧
  d !! "r" = Some (float_col q_r rows).

(** Membership in the flip set, [K < 0 and r < 0], and the two relabelling
    masks of a row. *)
Definition flips (q : qrow) : bool :=
  bool_decide (q_K q < 0) && bool_decide (q_r q < 0).
Definition switches_ab (q : qrow) : bool :=
  flips q && bool_decide (q_b q < q_a q)%Z.
Definition switches_mn (q : qrow) : bool :=
  flips q && bool_decide (q_a q < q_b q)%Z.

(** What the vectorised assignments of [fix_sign_with_K] do to one row. *)
Definition fix_row (q : qrow) : qrow :=
  QRow (if switches_ab q then q_b q else q_a q)
       (if switches_ab q then q_a q else q_b q)
       (if switches_mn q then q_n q else q_m q)
       (if switches_mn q then q_m q else q_n q)
       (if flips q then q_K q * -1 else q_K q)
       (if flips q then q_r q * -1 else q_r q).

(** The columns [fix_sign_with_K] has written when it reaches the phase
    recomputation, for a table holding [rows]. *)
Definition fix_sign_columns (d : gmap string (list value))
    (rows : list qrow) : gmap string (list value) :=
  before_phase d (flips <$> rows) (switches_ab <$> rows) (switches_mn <$> rows)
    (float_col q_K rows) (float_col q_r rows)
    (int_col q_a rows) (int_col q_b rows)
    (int_col q_m rows) (int_col q_n rows).

(** The derived columns agree with the columns they are computed from. *)
Definition derived_consistent (d : gmap string (list value)) : Prop :=
  (∀ x, d !! "rho_a" = Some x →
     ∃ r K, d !! "r" = Some r ∧ d !! "K" = Some K ∧ x = series_mul r K) ∧
  (∀ x, d !! "rpha" = Some x →
     ∃ Zt, d !! "Zt" = Some Zt ∧ phase_of Zt = Some x).

(** A table [fix_sign_with_K] accepts: columns of one length, the six
    relabelled columns holding [rows], and a [Zt] column whenever there is
    an [rpha] column to recompute. *)
Definition quadrupole_table (df : DataFrame) (rows : list qrow) : Prop :=
  frame_wf df ∧ has_rows (data df) rows ∧
  (is_Some (data df !! "rpha") → is_Some (data df !! "Zt")).

(** The table with exactly the columns a, b, m, n, r, K holding [rows]
    (the shape of the table built by [test_fix_sign_with_K]). *)
Definition table_of_rows (rows : list qrow) : DataFrame :=
  mkDF (Z.of_nat <$> seq 0 (length rows))
    (<["a" := int_col q_a rows]> (<["b" := int_col q_b rows]>
    (<["m" := int_col q_m rows]> (<["n" := int_col q_n rows]>
    (<["r" := float_col q_r rows]> (<["K" := float_col q_K rows]> ∅)))))).

(** A world holding one DataFrame, at location 0, and an empty console. *)
Definition world_of (df : DataFrame) : world := mkWorld {[ 0%nat := df ]} [].

(** ** Tripole tables and the quadrupoles built from them, row by row *)

(** One tripole record: canonical current pair and potential electrode,
    their lowercase duplicates, and the measured channels the construction
    uses. *)
Record trow := TRow {
  t_A : Z; t_B : Z; t_P : Z;
  t_a : Z; t_b : Z; t_p : Z;
  t_frequency : R;
  t_Zt : R * R;
  t_Iab : R
}.

Definition has_trows (d : gmap string (list value)) (rows : list trow) : Prop :=
  d !! "A" = Some (int_col t_A rows) ∧
  d !! "B" = Some (int_col t_B rows) ∧
  d !! "P" = Some (int_col t_P rows) ∧
  d !! "a" = Some (int_col t_a rows) ∧
  d !! "b" = Some (int_col t_b rows) ∧
  d !! "p" = Some (int_col t_p rows) ∧
  d !! "frequency" = Some (float_col t_frequency rows) ∧
  d !! "Zt" = Some (complex_col t_Zt rows) ∧
  d !! "Iab" = Some (float_col t_Iab rows).

(** A tripole table: columns of one length, holding [rows], with every
    column that is carried over present. *)
Definition tripole_table (df : DataFrame) (rows : list trow) : Prop :=
  frame_wf df ∧ has_trows (data df) rows ∧
  Forall (λ c, is_Some (data df !! c)) keep_cols.

(** The tripole rows for the current pair [(A, B)] and potential electrode
    [P], in table order. *)
Definition matches (A B P : Z) (t : trow) : bool :=
  bool_decide (t_A t = A) && bool_decide (t_B t = B) && bool_decide (t_P t = P).

Definition selected (rows : list trow) (A B P : Z) : list trow :=
  mask_take (matches A B P <$> rows) rows.

(** The frame a query returns: the rows of [df] where [mask] holds. *)
Definition filtered (df : DataFrame) (mask : list bool) : DataFrame :=
  mkDF (mask_take mask (index df)) (mask_take mask <$> data df).

(** One constructed quadrupole: potential electrodes, impedance, and the
    current of the M row. *)
Record quad := Quad {
  qd_m : Z; qd_n : Z;
  qd_Zt : R * R;
  qd_Iab : R
}.

Definition superpose (tM tN : trow) : quad :=
  Quad (t_p tM) (t_p tN) (Csub (t_Zt tM) (t_Zt tN)) (t_Iab tM).

(** The M rows and the N rows of a configuration. *)
Definition rows_M (rows : list trow) (config : Z * Z * Z * Z) : list trow :=
  let '(Ar, Br, M, N) := config in selected rows (Z.min Ar Br) (Z.max Ar Br) M.
Definition rows_N (rows : list trow) (config : Z * Z * Z * Z) : list trow :=
  let '(Ar, Br, M, N) := config in selected rows (Z.min Ar Br) (Z.max Ar Br) N.

(** A configuration has both sides present. *)
Definition both_present (rows : list trow) (config : Z * Z * Z * Z) : bool :=
  negb (bool_decide (rows_M rows config = [])) &&
  negb (bool_decide (rows_N rows config = [])).

Definition quads_of (rows : list trow) (config : Z * Z * Z * Z) : list quad :=
  zip_with superpose (rows_M rows config) (rows_N rows config).

Definition all_quads (rows : list trow) (configs : list (Z * Z * Z * Z)) :
    list quad :=
  concat (quads_of rows <$> configs).

(** The samples of the two sides pair up: as many N rows as M rows,
    unless one side is missing. *)
Definition aligned (rows : list trow) (config : Z * Z * Z * Z) : Prop :=
  both_present rows config = true →
  length (rows_M rows config) = length (rows_N rows config).

(** The derived quantities of a quadrupole. *)
Definition qd_r (q : quad) : R :=
  Rsgn (qd_Zt q).1 * sqrt ((qd_Zt q).1 * (qd_Zt q).1 + (qd_Zt q).2 * (qd_Zt q).2).
Definition qd_Vmn (q : quad) : R := qd_r q * qd_Iab q.
Definition qd_rpha (q : quad) : R := arctan2 (qd_Zt q).2 (qd_Zt q).1 * 1000.

(** The columns of a frame appended to [quadpole_list]. *)
Definition frame_quads (f : DataFrame) (qs : list quad) : Prop :=
  frame_wf f ∧ nrows f = length qs ∧
  data f !! "Zt" = Some (complex_col qd_Zt qs) ∧
  data f !! "m" = Some (int_col qd_m qs) ∧
  data f !! "n" = Some (int_col qd_n qs) ∧
  data f !! "Iab" = Some (float_col qd_Iab qs).

(** The columns of the table [compute_quadrupoles] returns. *)
Definition has_quads (d : gmap string (list value)) (qs : list quad) : Prop :=
  d !! "Zt" = Some (complex_col qd_Zt qs) ∧
  d !! "m" = Some (int_col qd_m qs) ∧
  d !! "n" = Some (int_col qd_n qs) ∧
  d !! "Iab" = Some (float_col qd_Iab qs) ∧
  d !! "r" = Some (float_col qd_r qs) ∧
  d !! "Vmn" = Some (float_col qd_Vmn qs) ∧
  d !! "rpha" = Some (float_col qd_rpha qs).

(** ** Two judgements on object-level code *)

(** [m] keeps the property [P] of the DataFrame, however it ends. *)
Definition preserves {A} (P : DataFrame → Prop) (m : D A) : Prop :=
  ∀ df o df', P df → m df = (o, df') → P df'.

(** Started on a DataFrame with property [P], [m] raises. *)
Definition raises_from {A} (P : DataFrame → Prop) (m : D A) : Prop :=
  ∀ df, P df → ∃ e df', m df = (Raise e, df').

(** There is an [rpha] column and no [Zt] column. *)
Definition rpha_without_Zt (df : DataFrame) : Prop :=
  is_Some (data df !! "rpha") ∧ data df !! "Zt" = None.
(** * Proofs *)

(** ** Running monadic code *)

Lemma run_bind {S A B} (m : ST S A) (k : A → ST S B) s a s' :
  m s = (Ret a, s') → (m ≫= k) s = k a s'.
Proof. unfold mbind, ST_bind. by intros ->. Qed.

Lemma run_bind_raise {S A B} (m : ST S A) (k : A → ST S B) s e s' :
  m s = (Raise e, s') → (m ≫= k) s = (Raise e, s').
Proof. unfold mbind, ST_bind. by intros ->. Qed.

Lemma contains_true c df col :
  data df !! c = Some col → contains c df = (Ret true, df).
Proof. unfold contains. intros ->. by rewrite bool_decide_eq_true_2. Qed.

Lemma contains_false c df :
  data df !! c = None → contains c df = (Ret false, df).
Proof.
  unfold contains. intros ->. rewrite bool_decide_eq_false_2; [done|].
  by intros [? ?].
Qed.

Lemma getitem_run c df col :
  data df !! c = Some col → getitem c df = (Ret col, df).
Proof. unfold getitem. by intros ->. Qed.

Lemma getitem_raise c df :
  data df !! c = None → getitem c df = (Raise (KeyError c), df).
Proof. unfold getitem. by intros ->. Qed.

Lemma setitem_run c col df :
  length col = nrows df →
  setitem c col df = (Ret tt, mkDF (index df) (<[c := col]> (data df))).
Proof. unfold setitem. intros H. by rewrite decide_True. Qed.

Lemma ix_get_run1 mask c df col :
  data df !! c = Some col →
  ix_get mask [c] df = (Ret [mask_take mask col], df).
Proof.
  intros H. simpl. erewrite run_bind; [|by apply getitem_run]. done.
Qed.

Lemma ix_get_run2 mask c1 c2 df col1 col2 :
  data df !! c1 = Some col1 → data df !! c2 = Some col2 →
  ix_get mask [c1; c2] df =
    (Ret [mask_take mask col1; mask_take mask col2], df).
Proof.
  intros H1 H2. simpl.
  erewrite run_bind; [|by apply getitem_run].
  erewrite run_bind; [done|].
  erewrite run_bind; [|by apply getitem_run]. done.
Qed.

Lemma ix_set_run1 mask c v idx d old :
  d !! c = Some old →
  ix_set mask [c] [v] (mkDF idx d) =
    (Ret tt, mkDF idx (<[c := mask_put mask v old]> d)).
Proof.
  intros H. unfold ix_set, mbind, ST_bind, get, put, mret, ST_ret. simpl.
  by rewrite H.
Qed.

Lemma ix_set_run2 mask c1 c2 v1 v2 idx d old1 old2 :
  c1 ≠ c2 → d !! c1 = Some old1 → d !! c2 = Some old2 →
  ix_set mask [c1; c2] [v1; v2] (mkDF idx d) =
    (Ret tt, mkDF idx (<[c2 := mask_put mask v2 old2]>
                        (<[c1 := mask_put mask v1 old1]> d))).
Proof.
  intros Hne H1 H2.
  unfold ix_set, mbind, ST_bind, get, put, mret, ST_ret. simpl.
  by rewrite H1, lookup_insert_ne, H2.
Qed.

Lemma ix_imul_run1 mask c k idx d col :
  d !! c = Some col →
  ix_imul mask [c] k (mkDF idx d) =
    (Ret tt, mkDF idx
       (<[c := mask_put mask ((λ v, v_mul v k) <$> mask_take mask col) col]> d)).
Proof.
  intros H. unfold ix_imul.
  erewrite run_bind; [|by apply ix_get_run1].
  simpl. by apply ix_set_run1.
Qed.

Lemma ix_imul_run2 mask c1 c2 k idx d col1 col2 :
  c1 ≠ c2 → d !! c1 = Some col1 → d !! c2 = Some col2 →
  ix_imul mask [c1; c2] k (mkDF idx d) =
    (Ret tt, mkDF idx
       (<[c2 := mask_put mask ((λ v, v_mul v k) <$> mask_take mask col2) col2]>
       (<[c1 := mask_put mask ((λ v, v_mul v k) <$> mask_take mask col1) col1]>
          d))).
Proof.
  intros Hne H1 H2. unfold ix_imul.
  erewrite run_bind; [|by apply ix_get_run2].
  simpl. by apply ix_set_run2.
Qed.

(** ** [fix_sign_with_K]: the code computes [before_phase] and
    [recompute_phase] *)

Lemma length_mask_put {A} (mask : list bool) (new old : list A) :
  length (mask_put mask new old) = length old.
Proof.
  revert new old. induction mask as [|[] mask IH]; intros new [|x old];
    simpl; try done.
  - destruct new; simpl; by rewrite IH.
  - by rewrite IH.
Qed.

Lemma contains_run c df :
  contains c df = (Ret (bool_decide (is_Some (data df !! c))), df).
Proof. done. Qed.

Lemma negate_block_run c flip idx d :
  (if bool_decide (is_Some (d !! c))
   then ix_imul flip [c] (VInt (-1)) else mret tt) (mkDF idx d) =
    (Ret tt, mkDF idx (negated_if_present c flip d)).
Proof.
  unfold negated_if_present. destruct (d !! c) as [col|] eqn:Hc.
  - rewrite bool_decide_eq_true_2 by done. by erewrite ix_imul_run1.
  - rewrite bool_decide_eq_false_2 by (by intros [? ?]). done.
Qed.

Lemma rho_a_block_run idx d r K :
  d !! "r" = Some r → d !! "K" = Some K →
  length r = length idx → length K = length idx →
  (if bool_decide (is_Some (d !! "rho_a"))
   then r ← getitem "r"; K ← getitem "K"; setitem "rho_a" (series_mul r K)
   else mret tt) (mkDF idx d) =
    (Ret tt, mkDF idx (rho_a_if_present d)).
Proof.
  intros Hr HK Hlr HlK. unfold rho_a_if_present. rewrite Hr, HK.
  destruct (d !! "rho_a") as [col|] eqn:Hc.
  - rewrite bool_decide_eq_true_2 by done.
    erewrite run_bind; [|by apply getitem_run].
    erewrite run_bind; [|by apply getitem_run].
    rewrite setitem_run; [done|].
    unfold series_mul, nrows. simpl. rewrite length_zip_with. lia.
  - rewrite bool_decide_eq_false_2 by (by intros [? ?]). done.
Qed.

Lemma phase_block_run idx d :
  (∀ Zt, d !! "Zt" = Some Zt → length Zt = length idx) →
  (has_rpha ← contains "rpha";
   (if (has_rpha : bool) then
      Zt ← getitem "Zt";
      Zt' ← getitem "Zt";
      phase ← lift (np_arctan2 (v_imag <$> Zt) (v_real <$> Zt'));
      setitem "rpha" ((λ v, v_mul v (VFloat 1000)) <$> phase)
    else mret tt);;
   mret tt) (mkDF idx d) = recompute_phase idx d.
Proof.
  intros Hlen. unfold recompute_phase.
  erewrite run_bind; [|by apply contains_run]. simpl data.
  destruct (d !! "rpha") as [col|] eqn:Hc.
  - rewrite bool_decide_eq_true_2 by done.
    destruct (d !! "Zt") as [Zt|] eqn:HZt.
    + specialize (Hlen Zt eq_refl).
      unfold phase_of.
      destruct (mapM _ _) as [ph|] eqn:Hph; simpl.
      * erewrite run_bind; [done|].
        erewrite run_bind; [|by apply getitem_run].
        erewrite run_bind; [|by apply getitem_run].
        erewrite run_bind; [|by unfold lift, np_arctan2; rewrite Hph].
        apply setitem_run. apply length_mapM in Hph.
        rewrite length_fmap, <- Hph, length_zip_with, !length_fmap.
        unfold nrows; simpl. lia.
      * erewrite run_bind_raise; [done|].
        erewrite run_bind; [|by apply getitem_run].
        erewrite run_bind; [|by apply getitem_run].
        erewrite run_bind_raise; [done|].
        by unfold lift, np_arctan2; rewrite Hph.
    + erewrite run_bind_raise; [done|].
      erewrite run_bind_raise; [done|]. by apply getitem_raise.
  - rewrite bool_decide_eq_false_2 by (by intros [? ?]). done.
Qed.

(** Column lengths are preserved. *)
Definition cols_len (k : nat) (d : gmap string (list value)) : Prop :=
  ∀ c col, d !! c = Some col → length col = k.

Lemma cols_len_insert k d c col :
  cols_len k d → length col = k → cols_len k (<[c := col]> d).
Proof.
  intros Hd Hc c' col'. destruct (decide (c = c')) as [->|Hne].
  - rewrite lookup_insert_eq. by intros [= <-].
  - rewrite lookup_insert_ne by done. apply Hd.
Qed.

Lemma cols_len_relabelled k d flip ab mn K r a b m n :
  cols_len k d →
  d !! "K" = Some K → d !! "r" = Some r → d !! "a" = Some a →
  d !! "b" = Some b → d !! "m" = Some m → d !! "n" = Some n →
  cols_len k (relabelled d flip ab mn K r a b m n).
Proof.
  intros Hd HK Hr Ha Hb Hm Hn. unfold relabelled.
  repeat apply cols_len_insert; try done;
    rewrite length_mask_put; eauto.
Qed.

Lemma cols_len_negated k c flip d :
  cols_len k d → cols_len k (negated_if_present c flip d).
Proof.
  intros Hd. unfold negated_if_present.
  destruct (d !! c) as [col|] eqn:Hc; [|done].
  apply cols_len_insert; [done|]. rewrite length_mask_put. eauto.
Qed.

Lemma cols_len_rho_a k d :
  cols_len k d → cols_len k (rho_a_if_present d).
Proof.
  intros Hd. unfold rho_a_if_present.
  destruct (d !! "rho_a") as [col|] eqn:Hc; [|done].
  destruct (d !! "r") as [r|] eqn:Hr; [|done].
  destruct (d !! "K") as [K|] eqn:HK; [|done].
  apply cols_len_insert; [done|]. unfold series_mul.
  rewrite length_zip_with, (Hd _ _ Hr), (Hd _ _ HK). lia.
Qed.

Lemma lookup_negated_ne c c' flip d :
  c ≠ c' → negated_if_present c flip d !! c' = d !! c'.
Proof.
  intros Hne. unfold negated_if_present.
  destruct (d !! c); [|done]. by rewrite lookup_insert_ne.
Qed.

Section fix_sign_run.
Context (idx : list Z) (d : gmap string (list value)).
Context (K r a b m n : list value) (mK mr gt lt : list bool).
Context (HK : d !! "K" = Some K) (Hr : d !! "r" = Some r).
Context (Ha : d !! "a" = Some a) (Hb : d !! "b" = Some b).
Context (Hm : d !! "m" = Some m) (Hn : d !! "n" = Some n).
Context (HmK : series_lt_scalar K (VInt 0) = Ret mK).
Context (Hmr : series_lt_scalar r (VInt 0) = Ret mr).
Context (Hgt : series_lt b a = Ret gt) (Hlt : series_lt a b = Ret lt).
Context (Hwf : frame_wf (mkDF idx d)).

Let flip := mask_and mK mr.
Let ab := mask_and flip gt.
Let mn := mask_and flip lt.

Lemma fix_sign_body_run :
  fix_sign_body (mkDF idx d) =
    recompute_phase idx (before_phase d flip ab mn K r a b m n).
Proof using All.
  unfold fix_sign_body.
  erewrite run_bind; [|by eapply contains_true].
  erewrite run_bind; [|by eapply contains_true].
  change (negb true || negb true) with false. cbv iota.
  erewrite run_bind; [|by apply getitem_run].
  erewrite run_bind; [|by unfold lift; rewrite HmK].
  erewrite run_bind; [|by apply getitem_run].
  erewrite run_bind; [|by unfold lift; rewrite Hmr].
  erewrite run_bind; [|by apply ix_imul_run2].
  fold neg1. fold flip.
  set (d1 := <["r" := _]> (<["K" := _]> d)).
  assert (d1 !! "a" = Some a) as Ha1 by (by unfold d1; rewrite !lookup_insert_ne).
  assert (d1 !! "b" = Some b) as Hb1 by (by unfold d1; rewrite !lookup_insert_ne).
  assert (d1 !! "m" = Some m) as Hm1 by (by unfold d1; rewrite !lookup_insert_ne).
  assert (d1 !! "n" = Some n) as Hn1 by (by unfold d1; rewrite !lookup_insert_ne).
  erewrite run_bind; [|by apply getitem_run].
  erewrite run_bind; [|by apply getitem_run].
  erewrite run_bind; [|by unfold lift; rewrite Hgt].
  erewrite run_bind; [|by apply getitem_run].
  erewrite run_bind; [|by apply getitem_run].
  erewrite run_bind; [|by unfold lift; rewrite Hlt].
  fold ab. fold mn.
  erewrite run_bind; [|by apply ix_get_run2].
  erewrite run_bind; [|by apply ix_set_run2].
  set (d2 := <["b" := _]> (<["a" := _]> d1)).
  assert (d2 !! "m" = Some m) as Hm2 by (by unfold d2; rewrite !lookup_insert_ne).
  assert (d2 !! "n" = Some n) as Hn2 by (by unfold d2; rewrite !lookup_insert_ne).
  erewrite run_bind; [|by apply ix_get_run2].
  erewrite run_bind; [|by apply ix_set_run2].
  set (d3 := <["n" := _]> (<["m" := _]> d2)).
  change d3 with (relabelled d flip ab mn K r a b m n).
  unfold before_phase.
  set (d3' := relabelled d flip ab mn K r a b m n).
  assert (cols_len (length idx) d3') as Hwf3.
  { by apply cols_len_relabelled. }
  assert (d3' !! "r" = Some (mask_put flip (neg1 <$> mask_take flip r) r))
    as Hr3 by (unfold d3', relabelled;
               rewrite !lookup_insert_ne by done;
               by rewrite lookup_insert_eq).
  assert (d3' !! "K" = Some (mask_put flip (neg1 <$> mask_take flip K) K))
    as HK3 by (unfold d3', relabelled;
               rewrite !lookup_insert_ne by done;
               by rewrite lookup_insert_eq).
  clearbody d3'.
  erewrite run_bind; [|by apply contains_run]. simpl data.
  erewrite run_bind; [|by apply negate_block_run].
  erewrite run_bind; [|by apply contains_run]. simpl data.
  erewrite run_bind; [|by apply negate_block_run].
  erewrite run_bind; [|by apply contains_run]. simpl data.
  erewrite run_bind;
    [|eapply rho_a_block_run;
      [by rewrite !lookup_negated_ne|by rewrite !lookup_negated_ne|..];
      rewrite length_mask_put; by eapply Hwf].
  apply phase_block_run. intros Zt HZt.
  by eapply cols_len_rho_a, HZt; do 2 apply cols_len_negated.
Qed.
End fix_sign_run.

(** ** Masks over tables given row by row *)

Lemma mask_take_fmap {A B} (f : A → B) mask (xs : list A) :
  f <$> mask_take mask xs = mask_take mask (f <$> xs).
Proof.
  revert xs. induction mask as [|[] mask IH]; intros [|x xs]; simpl;
    try done; by rewrite IH.
Qed.

Lemma mask_put_take_rows {A B} (p : A → bool) (f g : A → B) rows :
  mask_put (p <$> rows) (mask_take (p <$> rows) (g <$> rows)) (f <$> rows) =
  (λ q, if p q then g q else f q) <$> rows.
Proof.
  induction rows as [|q rows IH]; [done|].
  rewrite !fmap_cons. destruct (p q); cbn [mask_take mask_put]; by rewrite IH.
Qed.

Lemma mask_and_rows {A} (p1 p2 : A → bool) rows :
  mask_and (p1 <$> rows) (p2 <$> rows) = (λ q, p1 q && p2 q) <$> rows.
Proof.
  unfold mask_and. induction rows as [|q rows IH]; [done|].
  rewrite !fmap_cons. cbn [zip_with]. by rewrite IH.
Qed.


Lemma series_lt_scalar_rows {A} (f : A → R) rows :
  series_lt_scalar ((λ q, VFloat (f q)) <$> rows) (VInt 0) =
  Ret ((λ q, bool_decide (f q < 0)) <$> rows).
Proof.
  unfold series_lt_scalar.
  induction rows as [|q rows IH]; [done|].
  rewrite !fmap_cons. cbn [mapM].
  destruct (mapM _ _) as [l|]; [|done].
  simpl in *. by injection IH as ->.
Qed.

Lemma series_lt_rows {A} (f g : A → Z) rows :
  series_lt ((λ q, VInt (f q)) <$> rows) ((λ q, VInt (g q)) <$> rows) =
  Ret ((λ q, bool_decide (f q < g q)%Z) <$> rows).
Proof.
  unfold series_lt.
  induction rows as [|q rows IH]; [done|].
  rewrite !fmap_cons. cbn [zip zip_with mapM].
  destruct (mapM _ _) as [l|]; [|done].
  simpl in *. by injection IH as ->.
Qed.

(** ** [fix_sign_with_K] on a table given row by row *)

Lemma fix_sign_body_rows idx d rows :
  has_rows d rows → cols_len (length idx) d →
  fix_sign_body (mkDF idx d) = recompute_phase idx (fix_sign_columns d rows).
Proof.
  intros (Ha & Hb & Hm & Hn & HK & Hr) Hlen.
  unfold fix_sign_columns.
  set (mK := (λ q, bool_decide (q_K q < 0)) <$> rows).
  set (mr := (λ q, bool_decide (q_r q < 0)) <$> rows).
  set (gt := (λ q, bool_decide (q_b q < q_a q)%Z) <$> rows).
  set (lt := (λ q, bool_decide (q_a q < q_b q)%Z) <$> rows).
  assert (flips <$> rows = mask_and mK mr) as ->
    by (unfold mK, mr; by rewrite mask_and_rows).
  assert (switches_ab <$> rows = mask_and (mask_and mK mr) gt) as ->
    by (unfold mK, mr, gt; by rewrite !mask_and_rows).
  assert (switches_mn <$> rows = mask_and (mask_and mK mr) lt) as ->
    by (unfold mK, mr, lt; by rewrite !mask_and_rows).
  eapply fix_sign_body_run; try done.
  - apply series_lt_scalar_rows.
  - apply series_lt_scalar_rows.
  - apply series_lt_rows.
  - apply series_lt_rows.
Qed.

Lemma lookup_rho_a_ne c d :
  c ≠ "rho_a" → rho_a_if_present d !! c = d !! c.
Proof.
  intros Hne. unfold rho_a_if_present.
  destruct (d !! "rho_a"); [|done].
  destruct (d !! "r"); [|done]. destruct (d !! "K"); [|done].
  by rewrite lookup_insert_ne.
Qed.

Lemma lookup_before_phase c d flip ab mn K r a b m n :
  c ≠ "rho_a" → c ≠ "Zt" → c ≠ "Vmn" →
  before_phase d flip ab mn K r a b m n !! c =
  relabelled d flip ab mn K r a b m n !! c.
Proof.
  intros. unfold before_phase.
  by rewrite lookup_rho_a_ne, !lookup_negated_ne.
Qed.

Lemma neg1_float x : neg1 (VFloat x) = VFloat (x * -1).
Proof. done. Qed.

Lemma has_rows_fix_sign_columns d rows :
  has_rows d rows → has_rows (fix_sign_columns d rows) (fix_row <$> rows).
Proof.
  intros _. unfold has_rows, fix_sign_columns.
  rewrite !lookup_before_phase by done. unfold relabelled.
  repeat split; rewrite ?lookup_insert_ne by done; rewrite lookup_insert_eq;
    unfold int_col, float_col;
    rewrite ?mask_take_fmap, <- ?list_fmap_compose, mask_put_take_rows;
    rewrite <- ?list_fmap_compose; f_equal; apply list_fmap_ext;
    intros i q _; simpl.
  - by destruct (switches_ab q).
  - by destruct (switches_ab q).
  - by destruct (switches_mn q).
  - by destruct (switches_mn q).
  - by destruct (flips q).
  - by destruct (flips q).
Qed.

Lemma cols_len_fix_sign_columns k d rows :
  has_rows d rows → cols_len k d → cols_len k (fix_sign_columns d rows).
Proof.
  intros (Ha & Hb & Hm & Hn & HK & Hr) Hd. unfold fix_sign_columns, before_phase.
  apply cols_len_rho_a. do 2 apply cols_len_negated.
  by apply cols_len_relabelled.
Qed.

Lemma is_Some_negated c c' flip d :
  is_Some (negated_if_present c flip d !! c') ↔ is_Some (d !! c').
Proof.
  unfold negated_if_present. destruct (d !! c) as [col|] eqn:Hc; [|done].
  destruct (decide (c = c')) as [<-|Hne].
  - rewrite lookup_insert_eq, Hc. split; eauto.
  - by rewrite lookup_insert_ne.
Qed.

Lemma is_Some_fix_sign_columns_Zt d rows :
  is_Some (fix_sign_columns d rows !! "Zt") ↔ is_Some (d !! "Zt").
Proof.
  unfold fix_sign_columns, before_phase.
  rewrite lookup_rho_a_ne, is_Some_negated, is_Some_negated by done.
  unfold relabelled. by rewrite !lookup_insert_ne.
Qed.

Lemma lookup_fix_sign_columns_other c d rows :
  c ∉ ["a"; "b"; "m"; "n"; "K"; "r"; "Vmn"; "Zt"; "rho_a"] →
  fix_sign_columns d rows !! c = d !! c.
Proof.
  intros Hc. unfold fix_sign_columns.
  repeat (apply not_elem_of_cons in Hc as [? Hc]).
  rewrite lookup_before_phase by done.
  unfold relabelled. by rewrite !lookup_insert_ne.
Qed.

Lemma rho_a_consistent d :
  is_Some (d !! "r") → is_Some (d !! "K") →
  ∀ x, rho_a_if_present d !! "rho_a" = Some x →
    ∃ r K, rho_a_if_present d !! "r" = Some r ∧
           rho_a_if_present d !! "K" = Some K ∧ x = series_mul r K.
Proof.
  intros [r Hr] [K HK] x.
  rewrite (lookup_rho_a_ne "r"), (lookup_rho_a_ne "K") by done.
  unfold rho_a_if_present. rewrite Hr, HK.
  destruct (d !! "rho_a") as [col|] eqn:Hc.
  - rewrite lookup_insert_eq. intros [= <-]. by exists r, K.
  - by rewrite Hc.
Qed.

Lemma v_arctan2_imag_real v w : is_Some (v_arctan2 (v_imag v) (v_real w)).
Proof. destruct v, w; simpl; eauto. Qed.

Lemma phase_of_total Zt : is_Some (phase_of Zt).
Proof.
  unfold phase_of. apply fmap_is_Some, mapM_is_Some, Forall_forall.
  intros [y x] Hin.
  apply elem_of_zip_with in Hin as (y' & x' & [= -> ->] & Hy & Hx).
  revert Hy Hx. rewrite !list_elem_of_fmap. 
  intros (v & -> & _) (v' & -> & _). apply v_arctan2_imag_real.
Qed.

Lemma length_phase_of Zt ph : phase_of Zt = Some ph → length ph = length Zt.
Proof.
  unfold phase_of. destruct (mapM _ _) as [l|] eqn:Hl; [|done].
  intros [= <-]. apply length_mapM in Hl.
  rewrite length_fmap, <- Hl, length_zip_with, !length_fmap. lia.
Qed.

Lemma recompute_phase_ok idx d :
  (is_Some (d !! "rpha") → is_Some (d !! "Zt")) →
  ∃ d', recompute_phase idx d = (Ret tt, mkDF idx d') ∧
        (∀ c, c ≠ "rpha" → d' !! c = d !! c) ∧
        (is_Some (d' !! "rpha") ↔ is_Some (d !! "rpha")) ∧
        (∀ x, d' !! "rpha" = Some x →
           ∃ Zt, d' !! "Zt" = Some Zt ∧ phase_of Zt = Some x) ∧
        (∀ k, cols_len k d → cols_len k d').
Proof.
  intros Hpre. unfold recompute_phase.
  destruct (d !! "rpha") as [col|] eqn:Hc.
  - destruct Hpre as [Zt HZt]; [done|]. rewrite HZt.
    destruct (phase_of_total Zt) as [ph Hph]. rewrite Hph.
    exists (<["rpha" := ph]> d). repeat split.
    + intros c Hne. by rewrite lookup_insert_ne.
    + done.
    + rewrite lookup_insert_eq. eauto.
    + intros x. rewrite lookup_insert_eq, lookup_insert_ne by done.
      intros [= <-]. eauto.
    + intros k Hk. apply cols_len_insert; [done|].
      rewrite (length_phase_of _ _ Hph). eauto.
  - exists d. repeat split; rewrite ?Hc; try done; intros; congruence.
Qed.

Lemma is_Some_insert_present (d : gmap string (list value)) k v c :
  is_Some (d !! k) → is_Some (<[k := v]> d !! c) ↔ is_Some (d !! c).
Proof.
  intros Hk. destruct (decide (k = c)) as [<-|Hne].
  - rewrite lookup_insert_eq. split; eauto.
  - by rewrite lookup_insert_ne.
Qed.

Lemma is_Some_rho_a c d :
  is_Some (rho_a_if_present d !! c) ↔ is_Some (d !! c).
Proof.
  unfold rho_a_if_present. destruct (d !! "rho_a") as [col|] eqn:Hc; [|done].
  destruct (d !! "r"); [|done]. destruct (d !! "K"); [|done].
  apply is_Some_insert_present. eauto.
Qed.

Lemma is_Some_fix_sign_columns c d rows :
  has_rows d rows →
  is_Some (fix_sign_columns d rows !! c) ↔ is_Some (d !! c).
Proof.
  intros (Ha & Hb & Hm & Hn & HK & Hr). unfold fix_sign_columns, before_phase.
  rewrite is_Some_rho_a, !is_Some_negated. unfold relabelled.
  rewrite !is_Some_insert_present; [done|..];
    rewrite ?lookup_insert_ne by done; eauto.
Qed.

(** From a table holding [rows], [fix_sign_with_K] returns the table holding
    [fix_row <$> rows]. *)
Lemma fix_sign_body_ok idx d rows :
  has_rows d rows → cols_len (length idx) d →
  (is_Some (d !! "rpha") → is_Some (d !! "Zt")) →
  ∃ d', fix_sign_body (mkDF idx d) = (Ret tt, mkDF idx d') ∧
        has_rows d' (fix_row <$> rows) ∧
        cols_len (length idx) d' ∧
        derived_consistent d' ∧
        (∀ c, c ∉ ["a"; "b"; "m"; "n"; "K"; "r"; "Vmn"; "Zt"; "rho_a"; "rpha"] →
              d' !! c = d !! c) ∧
        (∀ c, is_Some (d' !! c) ↔ is_Some (d !! c)).
Proof.
  intros Hrows Hlen Hpre.
  rewrite (fix_sign_body_rows _ _ rows) by done.
  destruct (recompute_phase_ok idx (fix_sign_columns d rows))
    as (d' & -> & Hother & Hrpha & Hph & Hk).
  { by rewrite !is_Some_fix_sign_columns. }
  exists d'. split; [done|].
  pose proof (has_rows_fix_sign_columns d rows Hrows)
    as (Ha & Hb & Hm & Hn & HK & Hr).
  split; [|split; [|split; [|split]]].
  - unfold has_rows. by rewrite !Hother.
  - by apply Hk, cols_len_fix_sign_columns.
  - split; [|done]. intros x.
    rewrite (Hother "rho_a"), (Hother "r"), (Hother "K") by done.
    apply rho_a_consistent; rewrite !lookup_negated_ne by done;
      unfold relabelled; rewrite ?lookup_insert_ne by done;
      rewrite lookup_insert_eq; eauto.
  - intros c Hc. rewrite Hother.
    + apply lookup_fix_sign_columns_other.
      intros Hin. apply Hc. revert Hin. rewrite !elem_of_cons. tauto.
    + intros ->. apply Hc. rewrite !elem_of_cons. tauto.
  - intros c. destruct (decide (c = "rpha")) as [->|Hne].
    + by rewrite Hrpha, is_Some_fix_sign_columns.
    + by rewrite Hother, is_Some_fix_sign_columns.
Qed.






(** ** [fix_sign_with_K] on the heap *)

Lemma on_run {A} l (m : D A) w df o df' :
  heap w !! l = Some df → m df = (o, df') →
  on l m w = (o, mkWorld (<[l := df']> (heap w)) (console w)).
Proof. unfold on. by intros -> ->. Qed.

Lemma fix_sign_with_K_run l w df df' :
  heap w !! l = Some df → fix_sign_body df = (Ret tt, df') →
  fix_sign_with_K l w = (Ret l, mkWorld (<[l := df']> (heap w)) (console w)).
Proof.
  intros Hl Hrun. unfold fix_sign_with_K.
  erewrite run_bind; [done|]. by eapply on_run.
Qed.

Lemma fix_sign_with_K_raise l w df e df' :
  heap w !! l = Some df → fix_sign_body df = (Raise e, df') →
  fix_sign_with_K l w = (Raise e, mkWorld (<[l := df']> (heap w)) (console w)).
Proof.
  intros Hl Hrun. unfold fix_sign_with_K.
  erewrite run_bind_raise; [done|]. by eapply on_run.
Qed.

(** The shared form of the results below: the call returns its argument,
    whose table now holds [fix_row <$> rows]. *)
Lemma fix_sign_with_K_rows l w df rows :
  heap w !! l = Some df → quadrupole_table df rows →
  ∃ df', fix_sign_with_K l w =
           (Ret l, mkWorld (<[l := df']> (heap w)) (console w)) ∧
         index df' = index df ∧
         quadrupole_table df' (fix_row <$> rows) ∧
         derived_consistent (data df') ∧
         (∀ c, is_Some (data df' !! c) ↔ is_Some (data df !! c)).
Proof.
  intros Hl (Hwf & Hrows & Hpre). destruct df as [idx d]. simpl in *.
  destruct (fix_sign_body_ok idx d rows) as (d' & Hrun & Hrows' & Hlen' & Hcons & _ & Hsome);
    try done.
  exists (mkDF idx d'). split; [by eapply fix_sign_with_K_run|].
  split; [done|]. split; [|done].
  split; [done|]. split; [done|]. simpl. by rewrite !Hsome.
Qed.

Lemma table_of_rows_ok rows : quadrupole_table (table_of_rows rows) rows.
Proof.
  split; [|split].
  - unfold frame_wf, table_of_rows, nrows. simpl.
    rewrite length_fmap, length_seq.
    change (cols_len (length rows)
      (<["a" := int_col q_a rows]> (<["b" := int_col q_b rows]>
      (<["m" := int_col q_m rows]> (<["n" := int_col q_n rows]>
      (<["r" := float_col q_r rows]> (<["K" := float_col q_K rows]> ∅))))))).
    repeat apply cols_len_insert;
      try (unfold int_col, float_col; by rewrite length_fmap).
    intros c col. by rewrite lookup_empty.
  - unfold has_rows, table_of_rows. simpl.
    repeat split; rewrite ?lookup_insert_ne by done; by rewrite lookup_insert_eq.
  - simpl. rewrite !lookup_insert_ne by done. rewrite lookup_empty.
    by intros [? ?].
Qed.

(** ** Results on [fix_sign_with_K] *)

Lemma flips_true q : flips q = true ↔ q_K q < 0 ∧ q_r q < 0.
Proof.
  unfold flips. rewrite andb_true_iff, !bool_decide_eq_true. done.
Qed.

Lemma fix_row_unflipped q : flips q = false → fix_row q = q.
Proof.
  intros Hq. unfold fix_row, switches_ab, switches_mn. rewrite Hq. simpl.
  by destruct q.
Qed.

(** C8. In [fix_sign_with_K], exactly the rows with K < 0 and r < 0 get K
    and r negated; among them, judged on the electrode order before the
    call, rows with a > b get a and b exchanged, rows with a < b get m and
    n exchanged, and rows with a = b keep all four labels.  Every other row
    is unchanged. *)
Theorem fix_sign_with_K_flip_set l w df rows :
  heap w !! l = Some df → quadrupole_table df rows →
  ∃ df' rows',
    fix_sign_with_K l w =
      (Ret l, mkWorld (<[l := df']> (heap w)) (console w)) ∧
    has_rows (data df') rows' ∧ length rows' = length rows ∧
    ∀ i q, rows !! i = Some q →
      ∃ q', rows' !! i = Some q' ∧
        (q_K q < 0 ∧ q_r q < 0 →
           q_K q' = - q_K q ∧ q_r q' = - q_r q ∧
           ((q_a q > q_b q)%Z →
              q_a q' = q_b q ∧ q_b q' = q_a q ∧
              q_m q' = q_m q ∧ q_n q' = q_n q) ∧
           ((q_a q < q_b q)%Z →
              q_m q' = q_n q ∧ q_n q' = q_m q ∧
              q_a q' = q_a q ∧ q_b q' = q_b q) ∧
           (q_a q = q_b q →
              q_a q' = q_a q ∧ q_b q' = q_b q ∧
              q_m q' = q_m q ∧ q_n q' = q_n q)) ∧
        (¬ (q_K q < 0 ∧ q_r q < 0) → q' = q).
Proof.
  intros Hl Htab.
  destruct (fix_sign_with_K_rows l w df rows Hl Htab)
    as (df' & Hrun & _ & (_ & Hrows' & _) & _).
  exists df', (fix_row <$> rows). split; [done|]. split; [done|].
  split; [by rewrite length_fmap|].
  intros i q Hq. exists (fix_row q). split.
  { by rewrite list_lookup_fmap, Hq. }
  split.
  - intros Hflip. pose proof (proj2 (flips_true q) Hflip) as Hf.
    unfold fix_row, switches_ab, switches_mn. rewrite Hf. simpl.
    split; [lra|]. split; [lra|]. repeat split.
    all: repeat case_bool_decide; lia.
  - intros Hno. apply fix_row_unflipped.
    destruct (flips q) eqn:Hf; [|done]. by apply flips_true in Hf.
Qed.

(** The example of the specification (and of [test_fix_sign_with_K]): the
    row a=1, b=2, m=3, n=4, r=-10, K=-20 becomes K=20, r=10, m=4, n=3, with
    a and b as they were. *)
Lemma fix_sign_with_K_flip_set_example :
  ∃ df', fix_sign_with_K 0%nat (world_of (table_of_rows [QRow 1 2 3 4 (-20) (-10)])) =
           (Ret 0%nat, world_of df') ∧
         has_rows (data df') [QRow 1 2 4 3 20 10].
Proof.
  destruct (fix_sign_with_K_flip_set 0%nat
              (world_of (table_of_rows [QRow 1 2 3 4 (-20) (-10)]))
              (table_of_rows [QRow 1 2 3 4 (-20) (-10)])
              [QRow 1 2 3 4 (-20) (-10)])
    as (df' & rows' & Hrun & Hrows & Hlen & Hpt).
  - apply lookup_singleton_eq.
  - apply table_of_rows_ok.
  - exists df'. split.
    + rewrite Hrun. unfold world_of. simpl. by rewrite insert_singleton_eq.
    + destruct (Hpt 0%nat _ eq_refl) as (q' & Hq' & Hflip & _).
      destruct rows' as [|q0 [|q1 rows']]; try discriminate Hlen.
      injection Hq' as ->. simpl in Hflip.
      destruct Hflip as (HK & Hr & _ & Hmn & _); [lra|].
      destruct Hmn as (Hm & Hn & Ha & Hb); [lia|].
      destruct q' as [a b m n K r]. simpl in *. subst.
      replace (- -20) with 20 in Hrows by lra.
      replace (- -10) with 10 in Hrows by lra. done.
Defined.






(** ** [fix_sign_with_K] on a table with [rpha] and without [Zt] *)

Section judgements.
Context (P : DataFrame → Prop).

Lemma preserves_bind {A B} (m : D A) (k : A → D B) :
  preserves P m → (∀ a, preserves P (k a)) → preserves P (m ≫= k).
Proof.
  intros Hm Hk df o df' HP. unfold mbind, ST_bind.
  destruct (m df) as [[a|e] df1] eqn:Hrun.
  - intros Hk'. eapply Hk; [|done]. by eapply Hm.
  - intros [= <- <-]. by eapply Hm.
Qed.

Lemma preserves_pure {A} (m : D A) :
  (∀ df, (m df).2 = df) → preserves P m.
Proof.
  intros Hm df o df' HP Hrun. specialize (Hm df). rewrite Hrun in Hm.
  simpl in Hm. by subst.
Qed.

Lemma preserves_if {A} (b : bool) (m1 m2 : D A) :
  preserves P m1 → preserves P m2 → preserves P (if b then m1 else m2).
Proof. by destruct b. Qed.

Lemma raises_bind {A B} (m : D A) (k : A → D B) :
  preserves P m → (∀ a, raises_from P (k a)) → raises_from P (m ≫= k).
Proof.
  intros Hm Hk df HP. unfold mbind, ST_bind.
  destruct (m df) as [[a|e] df1] eqn:Hrun; [|eauto].
  apply Hk. by eapply Hm.
Qed.

Lemma raises_if {A} (b : bool) (m1 m2 : D A) :
  raises_from P m1 → raises_from P m2 → raises_from P (if b then m1 else m2).
Proof. by destruct b. Qed.

Lemma raises_raise {A} e : raises_from P (raise e : D A).
Proof. intros df _. by eexists _, _. Qed.
End judgements.

Lemma ix_get_pure mask cols df : (ix_get mask cols df).2 = df.
Proof.
  induction cols as [|c cols IH]; [done|].
  simpl. unfold mbind, ST_bind, getitem.
  destruct (data df !! c); simpl; [|done].
  destruct (ix_get mask cols df) as [[rest|e] df1]; simpl in *; by subst.
Qed.

Lemma preserves_ix_set mask cols vals :
  "Zt" ∉ cols → preserves rpha_without_Zt (ix_set mask cols vals).
Proof.
  revert vals. induction cols as [|c cols IH]; intros vals Hc.
  { intros df o df' HP [= <- <-]. done. }
  destruct vals as [|v vals].
  { intros df o df' HP [= <- <-]. done. }
  apply not_elem_of_cons in Hc as [Hne Hc].
  intros df o df' [Hrpha HZt]. simpl. unfold mbind, ST_bind, get, put.
  apply IH; [done|]. split; simpl.
  - destruct (decide (c = "rpha")) as [->|Hne'].
    + rewrite lookup_insert_eq. eauto.
    + by rewrite lookup_insert_ne.
  - by rewrite lookup_insert_ne.
Qed.

Lemma preserves_ix_imul mask cols k :
  "Zt" ∉ cols → preserves rpha_without_Zt (ix_imul mask cols k).
Proof.
  intros Hc. apply preserves_bind.
  - apply preserves_pure, ix_get_pure.
  - intros vals. by apply preserves_ix_set.
Qed.

Lemma preserves_setitem c col :
  c ≠ "Zt" → preserves rpha_without_Zt (setitem c col).
Proof.
  intros Hne df o df' [Hrpha HZt]. unfold setitem.
  case_decide; intros [= <- <-]; [|done]. split; simpl.
  - destruct (decide (c = "rpha")) as [->|Hne'].
    + rewrite lookup_insert_eq. eauto.
    + by rewrite lookup_insert_ne.
  - by rewrite lookup_insert_ne.
Qed.

Lemma preserves_negate_Zt mask k :
  preserves rpha_without_Zt (ix_imul mask ["Zt"] k).
Proof.
  intros df o df' [Hrpha HZt]. unfold ix_imul. simpl.
  erewrite run_bind_raise; [|erewrite run_bind_raise; [done|]; by apply getitem_raise].
  by intros [= <- <-].
Qed.

Ltac not_in_list :=
  let H := fresh in
  intros H; repeat (apply elem_of_cons in H as [H|H]; [discriminate H|]);
  by apply elem_of_nil in H.

Lemma fix_sign_body_raises : raises_from rpha_without_Zt fix_sign_body.
Proof.
  unfold fix_sign_body.
  apply raises_bind; [by apply preserves_pure|intros has_K].
  apply raises_bind; [by apply preserves_pure|intros has_r].
  apply raises_if; [apply raises_raise|].
  apply raises_bind; [by apply preserves_pure|intros K].
  apply raises_bind; [by apply preserves_pure|intros K_neg].
  apply raises_bind; [by apply preserves_pure|intros r].
  apply raises_bind; [by apply preserves_pure|intros r_neg].
  apply raises_bind; [apply preserves_ix_imul; not_in_list|intros _].
  apply raises_bind; [by apply preserves_pure|intros a].
  apply raises_bind; [by apply preserves_pure|intros b].
  apply raises_bind; [by apply preserves_pure|intros a_gt_b].
  apply raises_bind; [by apply preserves_pure|intros a'].
  apply raises_bind; [by apply preserves_pure|intros b'].
  apply raises_bind; [by apply preserves_pure|intros a_lt_b].
  apply raises_bind; [apply preserves_pure, ix_get_pure|intros ba].
  apply raises_bind; [apply preserves_ix_set; not_in_list|intros _].
  apply raises_bind; [apply preserves_pure, ix_get_pure|intros nm].
  apply raises_bind; [apply preserves_ix_set; not_in_list|intros _].
  apply raises_bind; [by apply preserves_pure|intros has_Vmn].
  apply raises_bind.
  { apply preserves_if; [apply preserves_ix_imul; not_in_list|by apply preserves_pure]. }
  intros _.
  apply raises_bind; [by apply preserves_pure|intros has_Zt].
  apply raises_bind.
  { apply preserves_if; [apply preserves_negate_Zt|by apply preserves_pure]. }
  intros _.
  apply raises_bind; [by apply preserves_pure|intros has_rho_a].
  apply raises_bind.
  { apply preserves_if; [|by apply preserves_pure].
    apply preserves_bind; [by apply preserves_pure|intros r'].
    apply preserves_bind; [by apply preserves_pure|intros K'].
    by apply preserves_setitem. }
  intros _ df [[col Hrpha] HZt].
  exists (KeyError "Zt"), df.
  erewrite run_bind; [|by eapply contains_true].
  erewrite run_bind_raise; [done|].
  erewrite run_bind_raise; [done|]. by apply getitem_raise.
Qed.

(** C10. On a table that contains K, r and rpha but no Zt column,
    [fix_sign_with_K] never returns: whatever else the table holds, the call
    raises; on a table that is otherwise well formed it gets as far as the
    phase recomputation and raises the bare [KeyError] of the missing-column
    access [dataframe['Zt']]. *)
Theorem fix_sign_with_K_rpha_without_Zt l w df :
  heap w !! l = Some df →
  is_Some (data df !! "K") → is_Some (data df !! "r") →
  is_Some (data df !! "rpha") → data df !! "Zt" = None →
  ∃ e w',
    fix_sign_with_K l w = (Raise e, w') ∧
    (∀ rows, frame_wf df → has_rows (data df) rows → e = KeyError "Zt").
Proof.
  intros Hl _ _ Hrpha HZt.
  destruct (fix_sign_body_raises df) as (e & df' & Hrun); [done|].
  exists e, (mkWorld (<[l := df']> (heap w)) (console w)).
  split; [by eapply fix_sign_with_K_raise|].
  intros rows Hwf Hrows. destruct df as [idx d]. simpl in *.
  rewrite (fix_sign_body_rows _ _ rows) in Hrun by done.
  unfold recompute_phase in Hrun.
  rewrite lookup_fix_sign_columns_other in Hrun by not_in_list.
  destruct Hrpha as [col Hrpha]. rewrite Hrpha in Hrun.
  destruct (fix_sign_columns d rows !! "Zt") as [Zt|] eqn:HZt'.
  - assert (is_Some (d !! "Zt")) as [? ?]; [|congruence].
    rewrite <- (is_Some_fix_sign_columns_Zt d rows). eauto.
  - by injection Hrun as <- _.
Qed.

(** The table of the specification's example with a stale [rpha] column and
    no [Zt]. *)
Lemma fix_sign_with_K_rpha_without_Zt_example :
  ∃ w',
    fix_sign_with_K 0%nat
      (world_of (mkDF [0%Z]
         (<["rpha" := [VFloat 0]]>
            (data (table_of_rows [QRow 1 2 3 4 (-20) (-10)]))))) =
    (Raise (KeyError "Zt"), w').
Proof.
  destruct (fix_sign_with_K_rpha_without_Zt 0%nat
    (world_of (mkDF [0%Z]
         (<["rpha" := [VFloat 0]]>
            (data (table_of_rows [QRow 1 2 3 4 (-20) (-10)])))))
    (mkDF [0%Z]
         (<["rpha" := [VFloat 0]]>
            (data (table_of_rows [QRow 1 2 3 4 (-20) (-10)])))))
    as (e & w' & Hrun & He).
  - apply lookup_singleton_eq.
  - simpl. rewrite !lookup_insert_ne by done. rewrite lookup_insert_eq. eauto.
  - simpl. rewrite !lookup_insert_ne by done. rewrite lookup_insert_eq. eauto.
  - simpl. rewrite lookup_insert_eq. eauto.
  - simpl. by rewrite !lookup_insert_ne.
  - exists w'. rewrite Hrun. f_equal. f_equal.
    apply (He [QRow 1 2 3 4 (-20) (-10)]).
    + change (cols_len 1
        (<["rpha" := [VFloat 0]]>
           (data (table_of_rows [QRow 1 2 3 4 (-20) (-10)])))).
      apply cols_len_insert; [|done].
      apply (table_of_rows_ok [QRow 1 2 3 4 (-20) (-10)]).
    + pose proof (table_of_rows_ok [QRow 1 2 3 4 (-20) (-10)])
        as (_ & (Ha & Hb & Hm & Hn & HK & Hr) & _).
      unfold has_rows. simpl. by rewrite !(lookup_insert_ne _ "rpha").
Defined.


(** ** [compute_quadrupoles]: selections *)

Lemma length_mask_take {A B} (mask : list bool) (xs : list A) (ys : list B) :
  length xs = length ys →
  length (mask_take mask xs) = length (mask_take mask ys).
Proof.
  revert xs ys. induction mask as [|b mask IH]; intros [|x xs] [|y ys] Hlen;
    simpl in *; try done.
  destruct b; simpl; rewrite (IH xs ys); congruence.
Qed.

Lemma length_mask_take_le {A} (mask : list bool) (xs : list A) :
  (length (mask_take mask xs) ≤ length xs)%nat.
Proof.
  revert xs. induction mask as [|b mask IH]; intros [|x xs]; simpl; try lia.
  specialize (IH xs). destruct b; simpl; lia.
Qed.

Lemma query_mask rows A B P :
  mask_and (mask_and ((λ v, v_eq_int v A) <$> int_col t_A rows)
                     ((λ v, v_eq_int v B) <$> int_col t_B rows))
           ((λ v, v_eq_int v P) <$> int_col t_P rows) =
  matches A B P <$> rows.
Proof.
  unfold int_col. rewrite <- !list_fmap_compose, !mask_and_rows. done.
Qed.

Lemma query_tripole df rows A B P :
  tripole_table df rows →
  query df A B P = Ret (filtered df (matches A B P <$> rows)).
Proof.
  intros (_ & (HA & HB & HP & _) & _). unfold query.
  rewrite HA, HB, HP. simpl. by rewrite query_mask.
Qed.

Section filtered.
Context (df : DataFrame) (rows : list trow) (A B P : Z).
Context (Htab : tripole_table df rows).

Let fq := filtered df (matches A B P <$> rows).
Let sel := selected rows A B P.

Lemma nrows_tripole : nrows df = length rows.
Proof using Htab.
  destruct Htab as (Hwf & (HA & _) & _).
  rewrite <- (Hwf _ _ HA). unfold int_col. by rewrite length_fmap.
Qed.

Lemma nrows_filtered : nrows fq = length sel.
Proof using Htab.
  unfold fq, sel, filtered, selected, nrows. simpl.
  apply length_mask_take. apply nrows_tripole.
Qed.

Lemma filtered_wf : frame_wf fq.
Proof using Htab.
  intros c col. unfold fq, filtered. simpl. rewrite lookup_fmap.
  destruct (data df !! c) as [col0|] eqn:Hc; [|done].
  intros [= <-]. apply length_mask_take.
  destruct Htab as (Hwf & _). by apply (Hwf c).
Qed.

Lemma filtered_col {V} (mk : V → value) (f : trow → V) c :
  data df !! c = Some ((λ t, mk (f t)) <$> rows) →
  data fq !! c = Some ((λ t, mk (f t)) <$> sel).
Proof.
  intros Hc. unfold fq, sel, filtered, selected. simpl.
  by rewrite lookup_fmap, Hc, mask_take_fmap.
Qed.

Lemma filtered_present c :
  is_Some (data df !! c) → is_Some (data fq !! c).
Proof.
  unfold fq, filtered. simpl. rewrite lookup_fmap. by apply fmap_is_Some.
Qed.

Lemma frame_size_filtered :
  (frame_size fq =? 0)%nat = bool_decide (sel = []).
Proof using Htab.
  unfold frame_size. rewrite nrows_filtered.
  assert (size (data fq) ≠ 0%nat) as Hsize.
  { unfold fq, filtered. simpl. rewrite map_size_fmap.
    destruct Htab as (_ & (HA & _) & _).
    intros Hz%map_size_empty_inv. by rewrite Hz, lookup_empty in HA. }
  subst sel. destruct (selected rows A B P) as [|t sel'].
  - by rewrite bool_decide_eq_true_2.
  - rewrite bool_decide_eq_false_2 by done. apply Nat.eqb_neq.
    destruct (size (data fq)); [done|]. simpl. lia.
Qed.
End filtered.

Lemma select_ok df cols :
  Forall (λ c, is_Some (data df !! c)) cols →
  ∃ kept, select df cols = Ret kept ∧
    ∀ c, kept !! c = if decide (c ∈ cols) then data df !! c else None.
Proof.
  induction 1 as [|c cols [col Hc] _ (rest & Hrest & Hlook)].
  - exists ∅. split; [done|]. intros c. rewrite lookup_empty.
    rewrite decide_False; [done|]. apply not_elem_of_nil.
  - exists (<[c := col]> rest). split.
    { simpl. unfold column. rewrite Hc. simpl. by rewrite Hrest. }
    intros c'. destruct (decide (c = c')) as [<-|Hne].
    + rewrite lookup_insert_eq, decide_True; [done|]. apply elem_of_cons; auto.
    + rewrite lookup_insert_ne, Hlook by done.
      destruct (decide (c' ∈ cols)).
      * rewrite decide_True; [done|]. apply elem_of_cons; auto.
      * rewrite decide_False; [done|]. rewrite elem_of_cons.
        intros [Heq|Hin]; [by subst|done].
Qed.

(** ** [compute_quadrupoles]: one configuration *)

Lemma np_sub_complex {A B} (f : A → R * R) (g : B → R * R) xs ys :
  length xs = length ys →
  np_sub (complex_col f xs) (complex_col g ys) =
  Ret ((λ p, VComplex (Csub (f p.1) (g p.2)).1 (Csub (f p.1) (g p.2)).2)
         <$> zip xs ys).
Proof.
  intros Hlen. unfold np_sub, complex_col.
  rewrite decide_True by (by rewrite !length_fmap).
  f_equal. revert ys Hlen.
  induction xs as [|x xs IH]; intros [|y ys] Hlen; simpl in *; try done.
  f_equal. apply IH. lia.
Qed.

Lemma outcome_bind_ret {A B} (a : A) (k : A → outcome B) :
  (Ret a ≫= k) = k a.
Proof. done. Qed.

Lemma assign_run df c col :
  length col = nrows df →
  assign df c col = Ret (mkDF (index df) (<[c := col]> (data df))).
Proof. intros H. unfold assign. by rewrite decide_True. Qed.

Lemma superpose_cols sM sN :
  length sM = length sN →
  complex_col qd_Zt (zip_with superpose sM sN) =
    (λ p, VComplex (Csub (t_Zt p.1) (t_Zt p.2)).1
                   (Csub (t_Zt p.1) (t_Zt p.2)).2) <$> zip sM sN ∧
  int_col qd_m (zip_with superpose sM sN) = int_col t_p sM ∧
  int_col qd_n (zip_with superpose sM sN) = int_col t_p sN ∧
  float_col qd_Iab (zip_with superpose sM sN) = float_col t_Iab sM ∧
  length (zip_with superpose sM sN) = length sM.
Proof.
  revert sN. induction sM as [|tM sM IH]; intros [|tN sN] Hlen;
    try done.
  destruct (IH sN) as (H1 & H2 & H3 & H4 & H5); [simpl in Hlen; lia|].
  unfold complex_col, int_col, float_col in *. csimpl.
  by rewrite H1, H2, H3, H4, H5.
Qed.

Lemma quadrupole_step df rows config :
  tripole_table df rows → aligned rows config →
  ∃ step, quadrupole df config = Ret step ∧
    match step with
    | None => quads_of rows config = []
    | Some df4 =>
        quads_of rows config ≠ [] ∧ frame_quads df4 (quads_of rows config)
    end.
Proof.
  intros Htab Hal. destruct config as [[[Ar Br] M] N].
  unfold quadrupole.
  rewrite !(query_tripole df rows) by done. rewrite !outcome_bind_ret.
  rewrite !(frame_size_filtered df rows) by done.
  unfold aligned, both_present, quads_of, rows_M, rows_N in *.
  set (A := Z.min Ar Br) in *. set (B := Z.max Ar Br) in *.
  set (sM := selected rows A B M) in *. set (sN := selected rows A B N) in *.
  destruct (decide (sM = [])) as [HM|HM].
  { rewrite (bool_decide_eq_true_2 _ HM). exists None.
    split; [done|]. by rewrite HM. }
  rewrite (bool_decide_eq_false_2 _ HM) in *.
  destruct (decide (sN = [])) as [HN|HN].
  { rewrite (bool_decide_eq_true_2 _ HN). exists None.
    split; [done|]. rewrite HN. by destruct sM. }
  rewrite (bool_decide_eq_false_2 _ HN) in *.
  specialize (Hal eq_refl). cbn [negb orb].
  pose proof Htab as (Hwf & (HA & HB & HP & Ha & Hb & Hp & Hf & HZt & HIab) & Hkeep).
  destruct (select_ok (filtered df (matches A B M <$> rows)) keep_cols)
    as (kept & -> & Hkept).
  { eapply Forall_impl; [exact Hkeep|]. intros c. apply filtered_present. }
  rewrite outcome_bind_ret. unfold column.
  rewrite !(filtered_col df rows A B _ (λ c, VComplex c.1 c.2) t_Zt "Zt") by done.
  rewrite !(filtered_col df rows A B _ VInt t_p "p") by done.
  fold sM sN. fold (complex_col t_Zt sM). fold (complex_col t_Zt sN).
  cbn [of_option]. rewrite !outcome_bind_ret.
  rewrite np_sub_complex by done. rewrite outcome_bind_ret.
  destruct (superpose_cols sM sN Hal) as (HcZ & Hcm & Hcn & HcI & Hlen).
  pose proof (nrows_filtered df rows A B M Htab) as HnM. fold sM in HnM.
  unfold nrows in HnM.
  rewrite assign_run by (unfold nrows; cbn [index data]; rewrite length_fmap, length_zip; lia).
  rewrite !outcome_bind_ret.
  rewrite assign_run by (unfold nrows; cbn [index data]; rewrite length_fmap; lia).
  rewrite !outcome_bind_ret.
  rewrite assign_run by (unfold nrows; cbn [index data]; rewrite length_fmap; lia).
  rewrite !outcome_bind_ret. cbn [index data].
  eexists. split; [done|]. split.
  { intros Hz. apply (f_equal length) in Hz. rewrite Hlen in Hz.
    by destruct sM. }
  unfold frame_quads. cbn [index data]. unfold nrows. cbn [index].
  split; [|split; [lia|]].
  - change (cols_len (length (index (filtered df (matches A B M <$> rows))))
      (<["n" := (λ t, VInt (t_p t)) <$> sN]>
       (<["m" := (λ t, VInt (t_p t)) <$> sM]>
        (<["Zt" := (λ p : trow * trow,
             VComplex (Csub (t_Zt p.1) (t_Zt p.2)).1
                      (Csub (t_Zt p.1) (t_Zt p.2)).2) <$> zip sM sN]> kept)))).
    repeat apply cols_len_insert;
      rewrite ?length_fmap, ?length_zip; try lia.
    intros c col. rewrite Hkept. case_decide; [|done].
    apply (filtered_wf df rows A B M Htab).
  - rewrite HcZ, Hcm, Hcn, HcI.
    split; [|split; [|split]].
    + rewrite !lookup_insert_ne by done. by rewrite lookup_insert_eq.
    + rewrite lookup_insert_ne by done. by rewrite lookup_insert_eq.
    + by rewrite lookup_insert_eq.
    + rewrite !lookup_insert_ne by done.
      rewrite Hkept, decide_True
        by (unfold keep_cols; rewrite !elem_of_cons; tauto).
      by rewrite (filtered_col df rows A B _ VFloat t_Iab "Iab").
Qed.
